(** * go-blockchain: the chain-integrity core of [main.go]

    A shallow embedding of [GenerateHash], [GenerateBlock], [ValidateBlock],
    [ReplaceChain], the genesis goroutine of [main] and the handlers
    [WriteBlockchain] and [GetBlockchain], together with the parts of the Go language and standard library
    they rest on: [int] arithmetic, the conversion [string(int)],
    [crypto/sha256] and [encoding/hex].

    Conventions.
    - Go's [int] is the 64-bit signed integer of the usual targets; a value is
      a [Z] and [+] wraps around, see [int_add].
    - A Go [string] is a sequence of bytes: Rocq's [string], whose characters
      are the 8-bit [ascii].
    - [time.Now().String()] is an input: the functions that read the clock
      take the timestamp as an argument called [now].
    - The package-level variable [Blockchain] is threaded through the
      stateful functions by the monad [Go]; an index out of range is a
      [Panic].
    - A handler's result is what it has written to its [ResponseWriter]; the
      body is kept as a JSON value, not as its indented text. Logging
      ([spew.Dump], [log]) and the closing of the request body are left
      out. *)

From Stdlib Require Import ZArith String Ascii List Bool Lia.
Import ListNotations.

Local Open Scope Z_scope.

(** ** Go's [int] and [string(int)] *)

Module GoInt.

Definition min_int : Z := - 2 ^ 63.
Definition max_int : Z := 2 ^ 63 - 1.

Definition in_range (z : Z) : Prop := min_int <= z <= max_int.

(** Two's complement wrap-around of a mathematical integer into [int]. *)
Definition wrap (z : Z) : Z := (z + 2 ^ 63) mod 2 ^ 64 - 2 ^ 63.

(** [a + b] on [int]. *)
Definition int_add (a b : Z) : Z := wrap (a + b).

(** Bytes are numbers below 256; [byte_char] is the string character. *)
Definition byte_char (b : Z) : ascii := ascii_of_N (Z.to_N (b mod 256)).
Definition char_byte (c : ascii) : Z := Z.of_N (N_of_ascii c).

Fixpoint string_of_bytes (l : list Z) : string :=
  match l with
  | [] => EmptyString
  | b :: l' => String (byte_char b) (string_of_bytes l')
  end.

Fixpoint bytes_of_string (s : string) : list Z :=
  match s with
  | EmptyString => []
  | String c s' => char_byte c :: bytes_of_string s'
  end.

(** [utf8.RuneError], U+FFFD. *)
Definition runeError : Z := 0xFFFD.

(** [utf8.EncodeRune] on a valid code point below [0x110000] that is not a
    surrogate. *)
Definition utf8_bytes (r : Z) : list Z :=
  if r <=? 0x7F then [r]
  else if r <=? 0x7FF then
    [Z.lor 0xC0 (Z.shiftr r 6); Z.lor 0x80 (Z.land r 0x3F)]
  else if r <=? 0xFFFF then
    [Z.lor 0xE0 (Z.shiftr r 12);
     Z.lor 0x80 (Z.land (Z.shiftr r 6) 0x3F);
     Z.lor 0x80 (Z.land r 0x3F)]
  else
    [Z.lor 0xF0 (Z.shiftr r 18);
     Z.lor 0x80 (Z.land (Z.shiftr r 12) 0x3F);
     Z.lor 0x80 (Z.land (Z.shiftr r 6) 0x3F);
     Z.lor 0x80 (Z.land r 0x3F)].

Definition valid_rune (v : Z) : bool :=
  (0 <=? v) && (v <=? 0x10FFFF) && negb ((0xD800 <=? v) && (v <=? 0xDFFF)).

(** The conversion [string(v)] of an integer [v]: the UTF-8 encoding of the
    code point [v], and of U+FFFD when [v] is not a valid code point. It is
    not the decimal representation of [v]. *)
Definition string_of_int (v : Z) : string :=
  string_of_bytes (utf8_bytes (if valid_rune v then v else runeError)).

End GoInt.
Import GoInt.

(** ** [crypto/sha256] and [encoding/hex] *)

Module SHA256.

Definition w32 (z : Z) : Z := z mod 2 ^ 32.
Definition add32 (a b : Z) : Z := w32 (a + b).
Definition rotr (n x : Z) : Z :=
  Z.lor (Z.shiftr x n) (w32 (Z.shiftl x (32 - n))).
Definition not32 (x : Z) : Z := Z.lxor x 0xFFFFFFFF.

Definition Ch (x y z : Z) : Z := Z.lxor (Z.land x y) (Z.land (not32 x) z).
Definition Maj (x y z : Z) : Z :=
  Z.lxor (Z.lxor (Z.land x y) (Z.land x z)) (Z.land y z).
Definition bsig0 (x : Z) : Z := Z.lxor (Z.lxor (rotr 2 x) (rotr 13 x)) (rotr 22 x).
Definition bsig1 (x : Z) : Z := Z.lxor (Z.lxor (rotr 6 x) (rotr 11 x)) (rotr 25 x).
Definition ssig0 (x : Z) : Z := Z.lxor (Z.lxor (rotr 7 x) (rotr 18 x)) (Z.shiftr x 3).
Definition ssig1 (x : Z) : Z := Z.lxor (Z.lxor (rotr 17 x) (rotr 19 x)) (Z.shiftr x 10).

Definition K : list Z :=
  [0x428A2F98; 0x71374491; 0xB5C0FBCF; 0xE9B5DBA5; 0x3956C25B; 0x59F111F1;
   0x923F82A4; 0xAB1C5ED5; 0xD807AA98; 0x12835B01; 0x243185BE; 0x550C7DC3;
   0x72BE5D74; 0x80DEB1FE; 0x9BDC06A7; 0xC19BF174; 0xE49B69C1; 0xEFBE4786;
   0x0FC19DC6; 0x240CA1CC; 0x2DE92C6F; 0x4A7484AA; 0x5CB0A9DC; 0x76F988DA;
   0x983E5152; 0xA831C66D; 0xB00327C8; 0xBF597FC7; 0xC6E00BF3; 0xD5A79147;
   0x06CA6351; 0x14292967; 0x27B70A85; 0x2E1B2138; 0x4D2C6DFC; 0x53380D13;
   0x650A7354; 0x766A0ABB; 0x81C2C92E; 0x92722C85; 0xA2BFE8A1; 0xA81A664B;
   0xC24B8B70; 0xC76C51A3; 0xD192E819; 0xD6990624; 0xF40E3585; 0x106AA070;
   0x19A4C116; 0x1E376C08; 0x2748774C; 0x34B0BCB5; 0x391C0CB3; 0x4ED8AA4A;
   0x5B9CCA4F; 0x682E6FF3; 0x748F82EE; 0x78A5636F; 0x84C87814; 0x8CC70208;
   0x90BEFFFA; 0xA4506CEB; 0xBEF9A3F7; 0xC67178F2].

(** The eight working words of the digest. *)
Record state := mkState { rA : Z; rB : Z; rC : Z; rD : Z;
                          rE : Z; rF : Z; rG : Z; rH : Z }.

Definition init : state :=
  mkState 0x6a09e667 0xbb67ae85 0x3c6ef372 0xa54ff53a
          0x510e527f 0x9b05688c 0x1f83d9ab 0x5be0cd19.

(** One round: [w] is the schedule word of the round, [k] its constant. *)
Definition round (s : state) (k w : Z) : state :=
  let t1 := add32 (add32 (add32 (add32 (rH s) (bsig1 (rE s)))
                                (Ch (rE s) (rF s) (rG s))) k) w in
  let t2 := add32 (bsig0 (rA s)) (Maj (rA s) (rB s) (rC s)) in
  mkState (add32 t1 t2) (rA s) (rB s) (rC s)
          (add32 (rD s) t1) (rE s) (rF s) (rG s).

(** The message schedule as a window of the sixteen latest words: the head
    is the word of the current round, and the word sixteen rounds ahead is
    appended. *)
Definition next_window (win : list Z) : list Z :=
  let w i := nth i win 0 in
  tl win ++ [add32 (add32 (add32 (ssig1 (w 14%nat)) (w 9%nat))
                          (ssig0 (w 1%nat))) (w 0%nat)].

Fixpoint rounds (ks : list Z) (win : list Z) (s : state) : state :=
  match ks with
  | [] => s
  | k :: ks' => rounds ks' (next_window win) (round s k (List.hd 0 win))
  end.

Fixpoint be_words (n : nat) (bs : list Z) : list Z :=
  match n, bs with
  | S n', b0 :: b1 :: b2 :: b3 :: bs' =>
      (b0 * 2 ^ 24 + b1 * 2 ^ 16 + b2 * 2 ^ 8 + b3) :: be_words n' bs'
  | _, _ => []
  end.

(** Compression of one 64-byte block into the running digest. *)
Definition compress (s : state) (block : list Z) : state :=
  let r := rounds K (be_words 16 block) s in
  mkState (add32 (rA s) (rA r)) (add32 (rB s) (rB r))
          (add32 (rC s) (rC r)) (add32 (rD s) (rD r))
          (add32 (rE s) (rE r)) (add32 (rF s) (rF r))
          (add32 (rG s) (rG r)) (add32 (rH s) (rH r)).

Fixpoint blocks (n : nat) (s : state) (bs : list Z) : state :=
  match n with
  | O => s
  | S n' => blocks n' (compress s (firstn 64 bs)) (skipn 64 bs)
  end.

Definition be_bytes (n : nat) (z : Z) : list Z :=
  map (fun i => Z.shiftr z (8 * Z.of_nat i) mod 256) (rev (seq 0 n)).

(** Padding: a [0x80] byte, zeros up to 56 modulo 64, and the length in bits
    as a 64-bit big-endian number. *)
Definition pad (msg : list Z) : list Z :=
  let len := Z.of_nat (length msg) in
  msg ++ [0x80] ++ repeat 0 (Z.to_nat ((55 - len) mod 64))
      ++ be_bytes 8 ((8 * len) mod 2 ^ 64).

Definition digest_bytes (s : state) : list Z :=
  be_bytes 4 (rA s) ++ be_bytes 4 (rB s) ++ be_bytes 4 (rC s)
    ++ be_bytes 4 (rD s) ++ be_bytes 4 (rE s) ++ be_bytes 4 (rF s)
    ++ be_bytes 4 (rG s) ++ be_bytes 4 (rH s).

(** [h := sha256.New(); h.Write(msg); h.Sum(nil)]. *)
Definition Sum (msg : list Z) : list Z :=
  let p := pad msg in
  digest_bytes (blocks (length p / 64) init p).

End SHA256.

Module Hex.

Definition hextable : string := "0123456789abcdef"%string.

Definition digit (n : Z) : ascii :=
  match String.get (Z.to_nat n) hextable with
  | Some c => c
  | None => "0"%char
  end.

(** [hex.EncodeToString]: two lower-case digits for each byte. *)
Fixpoint EncodeToString (src : list Z) : string :=
  match src with
  | [] => EmptyString
  | b :: src' =>
      String (digit (Z.shiftr b 4))
             (String (digit (Z.land b 0x0F)) (EncodeToString src'))
  end.

End Hex.

(** ** The data model of [main.go] *)

Record Block := mkBlock {
  Index : Z;           (* the position of the data record in the blockchain *)
  Timestamp : string;  (* the time the data is written *)
  Data : Z;            (* the custom data, an integer *)
  Hash : string;       (* SHA256 identifier representing this data record *)
  PrevHash : string    (* SHA256 identifier of the previous record *)
}.

(** The request body of the POST, [{"Data":100}]. *)
Record Message := mkMessage { Message_Data : Z }.

(** The zero value of [var newBlock Block] and the field assignments. *)
Definition zeroBlock : Block := mkBlock 0 "" 0 "" "".

Definition set_Index (v : Z) (b : Block) : Block :=
  mkBlock v (Timestamp b) (Data b) (Hash b) (PrevHash b).
Definition set_Timestamp (v : string) (b : Block) : Block :=
  mkBlock (Index b) v (Data b) (Hash b) (PrevHash b).
Definition set_Data (v : Z) (b : Block) : Block :=
  mkBlock (Index b) (Timestamp b) v (Hash b) (PrevHash b).
Definition set_Hash (v : string) (b : Block) : Block :=
  mkBlock (Index b) (Timestamp b) (Data b) v (PrevHash b).
Definition set_PrevHash (v : string) (b : Block) : Block :=
  mkBlock (Index b) (Timestamp b) (Data b) (Hash b) v.

(** Go's [error] values; [None] is [nil]. *)
Definition error : Type := string.

(** ** The pure functions *)

(** [GenerateHash]: the hexadecimal SHA-256 of [string(Index) + Timestamp +
    string(Data) + PrevHash]. The stored [Hash] is not read. *)
Definition GenerateHash (block : Block) : string :=
  let record := (string_of_int (Index block) ++ Timestamp block
                 ++ string_of_int (Data block) ++ PrevHash block)%string in
  let hashed := SHA256.Sum (bytes_of_string record) in
  Hex.EncodeToString hashed.

(** [GenerateBlock]; [now] is [time.Now().String()]. *)
Definition GenerateBlock (now : string) (prevBlock : Block) (Data : Z)
  : Block * option error :=
  let newBlock := zeroBlock in
  let newBlock := set_Index (int_add (Index prevBlock) 1) newBlock in
  let newBlock := set_Timestamp now newBlock in
  let newBlock := set_Data Data newBlock in
  let newBlock := set_PrevHash (Hash prevBlock) newBlock in
  let newBlock := set_Hash (GenerateHash newBlock) newBlock in
  (newBlock, None).

(** [ValidateBlock], with its three early returns. *)
Definition ValidateBlock (prevBlock newBlock : Block) : bool :=
  if negb (int_add (Index prevBlock) 1 =? Index newBlock) then false
  else if negb (String.eqb (Hash prevBlock) (PrevHash newBlock)) then false
  else if negb (String.eqb (GenerateHash newBlock) (Hash newBlock)) then false
  else true.

(** ** The state: the package-level [Blockchain] *)

Inductive result (A : Type) : Type :=
| Ok (a : A)
| Panic (msg : string).
Arguments Ok {A} a.
Arguments Panic {A} msg.

(** A computation over the global slice [Blockchain]. A panic keeps the state
    it was raised in. *)
Definition Go (A : Type) : Type := list Block -> result A * list Block.

Definition ret {A} (a : A) : Go A := fun st => (Ok a, st).

Definition bind {A B} (c : Go A) (k : A -> Go B) : Go B :=
  fun st =>
    match c st with
    | (Ok a, st') => k a st'
    | (Panic msg, st') => (Panic msg, st')
    end.

Definition panic {A} (msg : string) : Go A := fun st => (Panic msg, st).

Declare Scope go_scope.
Delimit Scope go_scope with go.
Notation "x <- c ;; k" := (bind c (fun x => k))
  (at level 61, c at next level, right associativity) : go_scope.
Notation "c ;;; k" := (bind c (fun _ => k))
  (at level 61, right associativity) : go_scope.
Local Open Scope go_scope.

(** Reading and assigning the variable [Blockchain]. *)
Definition load : Go (list Block) := fun st => (Ok st, st).
Definition store (v : list Block) : Go unit := fun _ => (Ok tt, v).

(** [len(s)], [s[i]] and [append(s, b)] on slices of blocks. *)
Definition len (s : list Block) : Z := Z.of_nat (length s).

Definition index (s : list Block) (i : Z) : Go Block :=
  if (i <? 0) || (len s <=? i) then panic "index out of range"
  else match nth_error s (Z.to_nat i) with
       | Some b => ret b
       | None => panic "index out of range"
       end.

Definition append (s : list Block) (b : Block) : list Block := s ++ [b].

(** [ReplaceChain]: it has no result. *)
Definition ReplaceChain (newBlocks : list Block) : Go unit :=
  Blockchain <- load ;;
  if len newBlocks >? len Blockchain then store newBlocks else ret tt.

(** The goroutine started by [main]. *)
Definition genesisBlock (now : string) : Block := mkBlock 0 now 0 "" "".

Definition genesis (now : string) : Go unit :=
  let genesisBlock := genesisBlock now in
  Blockchain <- load ;;
  store (append Blockchain genesisBlock).

(** ** The HTTP handlers *)

Definition StatusCreated : Z := 201.
Definition StatusBadRequest : Z := 400.
Definition StatusInternalServerError : Z := 500.

(** What is passed to [RespondWithJSON] as [payload interface{}]. *)
Inductive Payload : Type :=
| PBlock (b : Block)
| PMessage (m : Message)
| PRequestBody.

(** The value of a JSON text: the payloads of this program are flat objects,
    whose members are kept in the order in which they are written. *)
Inductive JValue : Type :=
| JNumber (n : Z)
| JString (s : string).

Inductive JSON : Type :=
| JObject (members : list (string * JValue)).

Definition json_of_Block (b : Block) : JSON :=
  JObject [("Index"%string, JNumber (Index b));
           ("Timestamp"%string, JString (Timestamp b));
           ("Data"%string, JNumber (Data b));
           ("Hash"%string, JString (Hash b));
           ("PrevHash"%string, JString (PrevHash b))].

(** [json.MarshalIndent]: the exported struct fields in declaration order.
    None of the payloads of this program makes it fail; the request body is a
    struct without exported fields. *)
Definition MarshalIndent (payload : Payload) : JSON * option error :=
  match payload with
  | PBlock b => (json_of_Block b, None)
  | PMessage m => (JObject [("Data"%string, JNumber (Message_Data m))], None)
  | PRequestBody => (JObject [], None)
  end.

Inductive Body : Type :=
| BodyJSON (j : JSON)
| BodyText (s : string).

(** What a handler has written to its [http.ResponseWriter]. *)
Record Response := mkResponse { StatusCode : Z; ResponseBody : Body }.

(** [RespondWithJSON]. *)
Definition RespondWithJSON (code : Z) (payload : Payload) : Response :=
  let (response, err) := MarshalIndent payload in
  match err with
  | Some _ =>
      mkResponse StatusInternalServerError
                 (BodyText "HTTP 500: Internal Server Error")
  | None => mkResponse code (BodyJSON response)
  end.

(** The outcome of [decoder.Decode(&m)] on the request body. *)
Inductive Request : Type :=
| Malformed (err : error)
| Decoded (m : Message).

(** Lines 158 to 162 of [WriteBlockchain]: the validation of [newBlock]
    against the last block and the append through [ReplaceChain]. *)
Definition tryAppend (newBlock : Block) : Go unit :=
  Blockchain <- load ;;
  tail <- index Blockchain (len Blockchain - 1) ;;
  if ValidateBlock tail newBlock then
    Blockchain <- load ;;
    let newBlockchain := append Blockchain newBlock in
    ReplaceChain newBlockchain
  else ret tt.

(** Lines 158 to 164: the append and the answer that follows it. *)
Definition appendAndRespond (newBlock : Block) : Go Response :=
  tryAppend newBlock ;;;
  ret (RespondWithJSON StatusCreated (PBlock newBlock)).

(** [WriteBlockchain]. *)
Definition WriteBlockchain (r : Request) (now : string) : Go Response :=
  match r with
  | Malformed _ => ret (RespondWithJSON StatusBadRequest PRequestBody)
  | Decoded m =>
      Blockchain <- load ;;
      tail <- index Blockchain (len Blockchain - 1) ;;
      let (newBlock, err) := GenerateBlock now tail (Message_Data m) in
      match err with
      | Some _ => ret (RespondWithJSON StatusInternalServerError (PMessage m))
      | None => appendAndRespond newBlock
      end
  end.

(** ** The process

    [main] starts the goroutine that appends the genesis block and serves
    requests; every handler call is taken as one step. [GetBlockchain] only
    reads and is left out. A POST that is served before the goroutine has run
    panics on the empty slice and leaves it empty. *)

Record Process := mkProcess { chain : list Block; genesisPending : bool }.

Definition start : Process := mkProcess [] true.

Inductive Event : Type :=
| RunGenesis (now : string)
| Post (r : Request) (now : string).

Definition step (e : Event) (p : Process) : Process :=
  match e with
  | RunGenesis now =>
      if genesisPending p then mkProcess (snd (genesis now (chain p))) false
      else p
  | Post r now =>
      mkProcess (snd (WriteBlockchain r now (chain p))) (genesisPending p)
  end.

Inductive reachable : Process -> Prop :=
| reachable_start : reachable start
| reachable_step e p : reachable p -> reachable (step e p).

(** The link between a block [B] and its predecessor [P]. *)
Definition linked (P B : Block) : Prop :=
  Index B = int_add (Index P) 1 /\
  PrevHash B = Hash P /\
  Hash B = GenerateHash B.

(** Every block of the chain but the first is linked to the one before. *)
Definition chain_linked (c : list Block) : Prop :=
  forall (i : nat) (P B : Block),
    nth_error c i = Some P -> nth_error c (S i) = Some B -> linked P B.

(** What every reachable state satisfies: the chain is linked, it is empty as
    long as the genesis goroutine has not run, and it starts with a genesis
    block afterwards. *)
Definition process_inv (p : Process) : Prop :=
  chain_linked (chain p) /\
  (genesisPending p = true -> chain p = []) /\
  (genesisPending p = false ->
   exists now rest, chain p = genesisBlock now :: rest).

(** ** [GetBlockchain]

    The handler marshals the whole slice. [Blockchain] is [nil] until the
    genesis goroutine has run and is never an empty slice afterwards, so the
    empty list stands for [nil], which [encoding/json] writes as [null]. The
    handler does not call [WriteHeader]: the status of its answer is the
    default, 200. [http.Error] ends the message with a newline. *)

Definition StatusOK : Z := 200.

Inductive SliceJSON : Type :=
| JNull
| JArray (items : list JSON).

Definition MarshalIndent_slice (bs : list Block) : SliceJSON * option error :=
  match bs with
  | [] => (JNull, None)
  | _ :: _ => (JArray (map json_of_Block bs), None)
  end.

Inductive ListingBody : Type :=
| ListingJSON (j : SliceJSON)
| ListingText (s : string).

Record Listing := mkListing { ListingStatus : Z; ListingContent : ListingBody }.

Definition newline : string := String (ascii_of_nat 10) EmptyString.

Definition GetBlockchain : Go Listing :=
  Blockchain <- load ;;
  let (bytes, err) := MarshalIndent_slice Blockchain in
  match err with
  | Some e =>
      ret (mkListing StatusInternalServerError
                     (ListingText (e ++ newline)%string))
  | None => ret (mkListing StatusOK (ListingJSON bytes))
  end.

(** ** Runs of the process *)

(** The events served one after the other, the first of the list first. *)
Definition serve (events : list Event) (p : Process) : Process :=
  fold_left (fun q e => step e q) events p.

(** ** Hexadecimal digits *)

Definition lower_hex (c : ascii) : bool :=
  existsb (Ascii.eqb c) (list_ascii_of_string Hex.hextable).

Fixpoint all_chars (f : ascii -> bool) (s : string) : bool :=
  match s with
  | EmptyString => true
  | String c s' => f c && all_chars f s'
  end.

(** ** Sample values *)

Module Sample.

Definition t0 : string := "2019-03-02 10:00:00.000000001 +0000 UTC m=+0.001".
Definition t1 : string := "2019-03-02 10:00:07.000000001 +0000 UTC m=+7.001".
Definition t2 : string := "2019-03-02 10:00:09.000000001 +0000 UTC m=+9.001".

Definition genesis0 : Block := genesisBlock t0.
Definition block1 : Block := fst (GenerateBlock t1 genesis0 100).

(** The process before and after the genesis goroutine, and after two POSTs. *)
Definition early : Process := step (Post (Decoded (mkMessage 100)) t1) start.
Definition process0 : Process := step (RunGenesis t0) start.
Definition process2 : Process :=
  serve [RunGenesis t0; Post (Decoded (mkMessage 100)) t1;
         Post (Decoded (mkMessage 7)) t2] start.

End Sample.

(** ** Proof support *)

Arguments GenerateHash : simpl never.
Arguments wrap : simpl never.
Arguments int_add : simpl never.

(** Unfolding of the field assignments and projections of a block. *)
Ltac fields :=
  cbn [fst snd Index Timestamp Data Hash PrevHash zeroBlock
       set_Index set_Timestamp set_Data set_Hash set_PrevHash].

(** Unfolding of the monad. *)
Ltac run := unfold bind, load, store, ret, panic.

(** * Properties *)

(** ** The library functions on known values *)

Example sha256_empty :
  Hex.EncodeToString (SHA256.Sum []) =
  "e3b0c44298fc1c149afbf4c8996fb92427ae41e4649b934ca495991b7852b855"%string.
Proof. vm_compute. reflexivity. Qed.

Example sha256_abc :
  Hex.EncodeToString (SHA256.Sum (bytes_of_string "abc")) =
  "ba7816bf8f01cfea414140de5dae2223b00361a396177a9cb410ff61f20015ad"%string.
Proof. vm_compute. reflexivity. Qed.

(** Two blocks of padding: a message of 56 bytes. *)
Example sha256_two_blocks :
  Hex.EncodeToString (SHA256.Sum (repeat 97 56)) =
  "b35439a4ac6f0948b6d6f9e3c6af0f5f590ce20f1bde7090ef7970686ec6738a"%string.
Proof. vm_compute. reflexivity. Qed.

Example string_of_int_100 : string_of_int 100 = "d"%string.
Proof. reflexivity. Qed.

Example string_of_int_euro :
  bytes_of_string (string_of_int 0x20AC) = [0xE2; 0x82; 0xAC].
Proof. reflexivity. Qed.

Example string_of_int_negative :
  bytes_of_string (string_of_int (-1)) = [0xEF; 0xBF; 0xBD].
Proof. reflexivity. Qed.

(** The record of the genesis block is a NUL byte, the timestamp and a NUL
    byte. *)
Example GenerateHash_genesis0 :
  GenerateHash Sample.genesis0 =
  "2fed3452bbf1c3c6098bcba76647c943aecdd59ee36c3a42f45606a6e5e9fa74"%string.
Proof. vm_compute. reflexivity. Qed.

Example block1_value :
  Sample.block1 =
  mkBlock 1 Sample.t1 100
    "df455caba511fd5b4714bf8685920122e238c27407e3aea3dee6d26a20258d65" "".
Proof. vm_compute. reflexivity. Qed.


(** ** Integers and strings *)

Lemma wrap_in_range (z : Z) : in_range z -> wrap z = z.
Proof.
  unfold in_range, min_int, max_int, wrap. intros H.
  rewrite Z.mod_small; lia.
Qed.

Lemma int_add_succ (a : Z) :
  in_range a -> a < max_int -> int_add a 1 = a + 1.
Proof.
  unfold int_add. intros Ha Hlt. apply wrap_in_range.
  unfold in_range, min_int, max_int in *. lia.
Qed.

Lemma int_add_max : int_add max_int 1 = min_int.
Proof. reflexivity. Qed.

(** ** The hash *)

Lemma GenerateHash_fields (a b : Block) :
  Index a = Index b -> Timestamp a = Timestamp b ->
  Data a = Data b -> PrevHash a = PrevHash b ->
  GenerateHash a = GenerateHash b.
Proof.
  unfold GenerateHash. intros -> -> -> ->. reflexivity.
Qed.

Lemma GenerateHash_set_Hash (h : string) (b : Block) :
  GenerateHash (set_Hash h b) = GenerateHash b.
Proof. apply GenerateHash_fields; reflexivity. Qed.

Lemma EncodeToString_length (src : list Z) :
  String.length (Hex.EncodeToString src) = (2 * length src)%nat.
Proof.
  induction src as [|b src IH]; simpl; [reflexivity|]. rewrite IH. lia.
Qed.

Lemma be_bytes_length (n : nat) (z : Z) : length (SHA256.be_bytes n z) = n.
Proof.
  unfold SHA256.be_bytes.
  rewrite length_map, length_rev, length_seq. reflexivity.
Qed.

Lemma Sum_length (msg : list Z) : length (SHA256.Sum msg) = 32%nat.
Proof.
  unfold SHA256.Sum, SHA256.digest_bytes.
  rewrite !length_app, !be_bytes_length. reflexivity.
Qed.

(** The digest of a block is 64 hexadecimal digits, whatever the block. *)
Lemma GenerateHash_length (b : Block) :
  String.length (GenerateHash b) = 64%nat.
Proof.
  unfold GenerateHash. rewrite EncodeToString_length, Sum_length. reflexivity.
Qed.

Lemma GenerateHash_nonempty (b : Block) : GenerateHash b <> ""%string.
Proof.
  intros H. pose proof (GenerateHash_length b) as L.
  rewrite H in L. discriminate L.
Qed.

(** ** [ValidateBlock] and [GenerateBlock] *)

Lemma ValidateBlock_spec (prevBlock newBlock : Block) :
  ValidateBlock prevBlock newBlock = true <->
  Index newBlock = int_add (Index prevBlock) 1 /\
  PrevHash newBlock = Hash prevBlock /\
  GenerateHash newBlock = Hash newBlock.
Proof.
  unfold ValidateBlock.
  destruct (int_add (Index prevBlock) 1 =? Index newBlock) eqn:Ei; cbn [negb].
  - apply Z.eqb_eq in Ei.
    destruct (String.eqb (Hash prevBlock) (PrevHash newBlock)) eqn:Ep; cbn [negb].
    + apply String.eqb_eq in Ep.
      destruct (String.eqb (GenerateHash newBlock) (Hash newBlock)) eqn:Eh;
        cbn [negb].
      * apply String.eqb_eq in Eh. split; [intros _|reflexivity].
        repeat split; congruence.
      * apply String.eqb_neq in Eh. split; [discriminate|].
        intros (_ & _ & H). contradiction.
    + apply String.eqb_neq in Ep. split; [discriminate|].
      intros (_ & H & _). congruence.
  - apply Z.eqb_neq in Ei. split; [discriminate|].
    intros (H & _). congruence.
Qed.

Lemma linked_ValidateBlock (P B : Block) :
  linked P B <-> ValidateBlock P B = true.
Proof.
  rewrite ValidateBlock_spec. unfold linked.
  split; intros (H1 & H2 & H3); repeat split; congruence.
Qed.

Lemma GenerateBlock_linked (now : string) (P : Block) (p : Z) :
  linked P (fst (GenerateBlock now P p)).
Proof.
  unfold linked, GenerateBlock. fields.
  split; [reflexivity|]. split; [reflexivity|].
  symmetry. apply GenerateHash_set_Hash.
Qed.

Lemma GenerateBlock_accepted (now : string) (P : Block) (p : Z) :
  ValidateBlock P (fst (GenerateBlock now P p)) = true.
Proof.
  apply linked_ValidateBlock, GenerateBlock_linked.
Qed.

(** C1. For every block [P], every payload [p] and every reading [now] of the
    clock, the block that [GenerateBlock] builds on [P] is accepted by
    [ValidateBlock] as the successor of [P]. *)
Theorem GenerateBlock_valid (now : string) (P : Block) (p : Z) :
  ValidateBlock P (fst (GenerateBlock now P p)) = true.
Proof.
  exact (GenerateBlock_accepted now P p).
Qed.

Lemma ValidateBlock_false (prevBlock newBlock : Block) :
  ValidateBlock prevBlock newBlock = false <->
  Index newBlock <> int_add (Index prevBlock) 1 \/
  PrevHash newBlock <> Hash prevBlock \/
  GenerateHash newBlock <> Hash newBlock.
Proof.
  pose proof (ValidateBlock_spec prevBlock newBlock) as S.
  destruct (ValidateBlock prevBlock newBlock).
  - split; [discriminate|]. destruct S as [S _].
    destruct (S eq_refl) as (H1 & H2 & H3).
    intros [H | [H | H]]; contradiction.
  - split; [intros _|reflexivity].
    destruct (Z.eq_dec (Index newBlock) (int_add (Index prevBlock) 1))
      as [H1|H1]; [|now left].
    destruct (string_dec (PrevHash newBlock) (Hash prevBlock))
      as [H2|H2]; [|now right; left].
    destruct (string_dec (GenerateHash newBlock) (Hash newBlock))
      as [H3|H3]; [|now right; right].
    destruct S as [_ S]. discriminate S. auto.
Qed.

(** C3. [ValidateBlock predecessor candidate] is [true] exactly when the three
    conditions hold together ([+] being the addition of Go's [int]), and
    [false] as soon as one of them fails. Both blocks are passed by value and
    the function is pure: it returns a boolean and changes nothing. *)
Theorem ValidateBlock_iff (predecessor candidate : Block) :
  (ValidateBlock predecessor candidate = true <->
     Index candidate = int_add (Index predecessor) 1 /\
     PrevHash candidate = Hash predecessor /\
     GenerateHash candidate = Hash candidate) /\
  (ValidateBlock predecessor candidate = false <->
     Index candidate <> int_add (Index predecessor) 1 \/
     PrevHash candidate <> Hash predecessor \/
     GenerateHash candidate <> Hash candidate).
Proof.
  split; [apply ValidateBlock_spec|apply ValidateBlock_false].
Qed.

(** C6. [GenerateBlock] has no error path: the error is [nil], and the block
    has the index [P.Index + 1] (the addition of Go's [int]), the payload, the
    stored hash of [P] as [PrevHash], and as [Hash] the digest of its own
    fields. Its timestamp is the reading of the clock. *)
Theorem GenerateBlock_fields (now : string) (P : Block) (p : Z) :
  snd (GenerateBlock now P p) = None /\
  let B := fst (GenerateBlock now P p) in
  Index B = int_add (Index P) 1 /\
  Data B = p /\
  PrevHash B = Hash P /\
  Hash B = GenerateHash B /\
  Timestamp B = now.
Proof.
  split; [reflexivity|]. cbv zeta.
  destruct (GenerateBlock_linked now P p) as (H1 & H2 & H3).
  repeat split; assumption.
Qed.

(** Below the largest [int] the index is the mathematical successor. *)
Lemma GenerateBlock_index_succ (now : string) (P : Block) (p : Z) :
  in_range (Index P) -> Index P < max_int ->
  Index (fst (GenerateBlock now P p)) = Index P + 1.
Proof.
  intros. unfold GenerateBlock. fields. apply int_add_succ; assumption.
Qed.

(** ** The slice [Blockchain] *)

Lemma len_append (s : list Block) (b : Block) : len (append s b) = len s + 1.
Proof.
  unfold len, append. rewrite length_app. cbn [length]. lia.
Qed.

(** [Blockchain[len(Blockchain)-1]] on a slice that has a last block. *)
Lemma index_last (front : list Block) (tail : Block) (st : list Block) :
  index (front ++ [tail]) (len (front ++ [tail]) - 1) st = (Ok tail, st).
Proof.
  unfold index. change (front ++ [tail]) with (append front tail).
  rewrite len_append. unfold len.
  replace (Z.of_nat (length front) + 1 - 1 <? 0) with false
    by (symmetry; apply Z.ltb_ge; lia).
  replace (Z.of_nat (length front) + 1 <=? Z.of_nat (length front) + 1 - 1)
    with false by (symmetry; apply Z.leb_gt; lia).
  cbn [orb].
  replace (Z.to_nat (Z.of_nat (length front) + 1 - 1)) with (length front)
    by lia.
  unfold append. rewrite nth_error_app2 by lia.
  rewrite Nat.sub_diag. reflexivity.
Qed.

(** The same expression on the empty slice panics. *)
Lemma index_empty (st : list Block) :
  index [] (len [] - 1) st = (Panic "index out of range", st).
Proof. reflexivity. Qed.

Lemma ReplaceChain_run (newBlocks Blockchain : list Block) :
  ReplaceChain newBlocks Blockchain =
  (Ok tt, if len newBlocks >? len Blockchain then newBlocks else Blockchain).
Proof.
  unfold ReplaceChain. run.
  destruct (len newBlocks >? len Blockchain); reflexivity.
Qed.

Lemma tryAppend_run (front : list Block) (tail newBlock : Block) :
  tryAppend newBlock (front ++ [tail]) =
  (Ok tt, if ValidateBlock tail newBlock
          then append (front ++ [tail]) newBlock
          else front ++ [tail]).
Proof.
  unfold tryAppend. run. rewrite index_last.
  destruct (ValidateBlock tail newBlock); [|reflexivity].
  rewrite ReplaceChain_run, len_append.
  replace (len (front ++ [tail]) + 1 >? len (front ++ [tail])) with true
    by (symmetry; apply Z.gtb_lt; lia).
  reflexivity.
Qed.

Lemma tryAppend_empty (newBlock : Block) :
  tryAppend newBlock [] = (Panic "index out of range", []).
Proof. reflexivity. Qed.

Lemma RespondWithJSON_Block (code : Z) (b : Block) :
  RespondWithJSON code (PBlock b) = mkResponse code (BodyJSON (json_of_Block b)).
Proof. reflexivity. Qed.

Lemma appendAndRespond_run (front : list Block) (tail newBlock : Block) :
  appendAndRespond newBlock (front ++ [tail]) =
  (Ok (mkResponse StatusCreated (BodyJSON (json_of_Block newBlock))),
   if ValidateBlock tail newBlock
   then append (front ++ [tail]) newBlock
   else front ++ [tail]).
Proof.
  unfold appendAndRespond, bind. rewrite tryAppend_run. reflexivity.
Qed.

Lemma WriteBlockchain_run (front : list Block) (tail : Block)
      (m : Message) (now : string) :
  let newBlock := fst (GenerateBlock now tail (Message_Data m)) in
  WriteBlockchain (Decoded m) now (front ++ [tail]) =
  (Ok (mkResponse StatusCreated (BodyJSON (json_of_Block newBlock))),
   append (front ++ [tail]) newBlock).
Proof.
  intros newBlock. unfold WriteBlockchain.
  unfold bind at 1. unfold load at 1. unfold bind at 1.
  rewrite index_last.
  change (GenerateBlock now tail (Message_Data m)) with (newBlock, @None error).
  cbv beta iota. rewrite appendAndRespond_run.
  unfold newBlock at 2. rewrite GenerateBlock_accepted. reflexivity.
Qed.

Lemma WriteBlockchain_empty (r : Request) (now : string) :
  snd (WriteBlockchain r now []) = [].
Proof. destruct r; reflexivity. Qed.

(** A slice is empty or has a last block. *)
Lemma slice_cases (s : list Block) :
  s = [] \/ exists front tail, s = front ++ [tail].
Proof.
  destruct s as [|b s]; [now left|right].
  destruct (exists_last (l := b :: s)) as (front & tail & E); [discriminate|].
  now exists front, tail.
Qed.

(** ** The chain invariant *)

Lemma chain_linked_single (b : Block) : chain_linked [b].
Proof.
  intros i P B _ H. destruct i; discriminate H.
Qed.

Lemma chain_linked_nil : chain_linked [].
Proof.
  intros i P B H _. destruct i; discriminate H.
Qed.

Lemma chain_linked_append (front : list Block) (tail b : Block) :
  chain_linked (front ++ [tail]) -> linked tail b ->
  chain_linked (append (front ++ [tail]) b).
Proof.
  intros Hc Hl i P B HP HB. unfold append in *.
  assert (Hlen : length (front ++ [tail]) = S (length front))
    by (rewrite length_app; cbn [length]; lia).
  destruct (Nat.lt_ge_cases (S i) (length (front ++ [tail]))) as [Hi|Hi].
  - rewrite nth_error_app1 in HP by lia.
    rewrite nth_error_app1 in HB by lia.
    exact (Hc i P B HP HB).
  - assert (Hb : (S i < length ((front ++ [tail]) ++ [b]))%nat)
      by (apply nth_error_Some; congruence).
    rewrite length_app in Hb. cbn [length] in Hb.
    assert (Ei : i = length front) by lia. subst i.
    rewrite nth_error_app2 in HB by lia.
    rewrite Hlen, Nat.sub_diag in HB. injection HB as <-.
    rewrite nth_error_app1 in HP by lia.
    rewrite nth_error_app2 in HP by lia.
    rewrite Nat.sub_diag in HP. injection HP as <-.
    exact Hl.
Qed.

Lemma process_inv_start : process_inv start.
Proof.
  split; [apply chain_linked_nil|]. split; [reflexivity|discriminate].
Qed.

Lemma process_inv_step (e : Event) (p : Process) :
  process_inv p -> process_inv (step e p).
Proof.
  intros Hinv. pose proof Hinv as (Hl & Hp & Hg).
  destruct e as [now|r now]; unfold step.
  - destruct (genesisPending p) eqn:E; [|exact Hinv].
    rewrite (Hp eq_refl). cbn [chain genesisPending].
    change (snd (genesis now [])) with [genesisBlock now].
    split; [apply chain_linked_single|]. split; [discriminate|].
    intros _. now exists now, [].
  - cbn [chain genesisPending].
    destruct (slice_cases (chain p)) as [E|(front & tail & E)].
    + rewrite E, WriteBlockchain_empty. rewrite <- E. exact Hinv.
    + destruct r as [err|m].
      * change (snd (WriteBlockchain (Malformed err) now (chain p)))
          with (chain p).
        exact Hinv.
      * rewrite E, WriteBlockchain_run. cbn [snd].
        split; [|split].
        -- apply chain_linked_append; [now rewrite <- E|].
           apply GenerateBlock_linked.
        -- intros Hpend. apply Hp in Hpend. rewrite E in Hpend.
           now destruct front.
        -- intros Hdone. destruct (Hg Hdone) as (now0 & rest & Hc).
           rewrite <- E, Hc. unfold append.
           now exists now0, (rest ++ [fst (GenerateBlock now tail (Message_Data m))]).
Qed.

Lemma reachable_inv (p : Process) : reachable p -> process_inv p.
Proof.
  induction 1 as [|e p _ IH];
    [apply process_inv_start|now apply process_inv_step].
Qed.

(** ** The append path *)

(** C2, as the code has it. On a chain with last block [tail], lines 158 to
    162 of [WriteBlockchain] validate the candidate against [tail]; a valid
    candidate is appended, an invalid one leaves the chain as it was. In both
    cases the path ends normally and hands back nothing: there is no boolean
    result. *)
Theorem tryAppend_outcome (front : list Block) (tail candidate : Block) :
  let Blockchain := front ++ [tail] in
  tryAppend candidate Blockchain =
  (Ok tt, if ValidateBlock tail candidate
          then append Blockchain candidate
          else Blockchain).
Proof. apply tryAppend_run. Qed.

(** C2 as stated fails: a candidate whose [PrevHash] was altered is rejected
    and the chain is kept, but what the append path returns is the same as
    for the accepted candidate, so that no [false] can be read off it. *)
Lemma tryAppend_rejection_unreported :
  let good := Sample.block1 in
  let bad := set_PrevHash "00" Sample.block1 in
  ValidateBlock Sample.genesis0 good = true /\
  ValidateBlock Sample.genesis0 bad = false /\
  snd (tryAppend good [Sample.genesis0]) = [Sample.genesis0; good] /\
  snd (tryAppend bad [Sample.genesis0]) = [Sample.genesis0] /\
  forall read : result unit -> bool,
    read (fst (tryAppend bad [Sample.genesis0])) =
    read (fst (tryAppend good [Sample.genesis0])).
Proof.
  cbv zeta.
  assert (Hg : ValidateBlock Sample.genesis0 Sample.block1 = true)
    by apply GenerateBlock_accepted.
  assert (Hb : ValidateBlock Sample.genesis0
                 (set_PrevHash "00" Sample.block1) = false)
    by (apply ValidateBlock_false; right; left; discriminate).
  pose proof (tryAppend_run [] Sample.genesis0 Sample.block1) as Rg.
  pose proof (tryAppend_run [] Sample.genesis0
                (set_PrevHash "00" Sample.block1)) as Rb.
  rewrite Hg in Rg. rewrite Hb in Rb. cbn [app] in Rg, Rb.
  rewrite Rg, Rb. repeat split.
Qed.


(** ** [ReplaceChain] *)

(** C5, as the code has it. [ReplaceChain] keeps the chain when the candidate
    is not longer and installs the candidate when it is strictly longer; it
    ends normally and has no result. *)
Theorem ReplaceChain_longest (newBlocks Blockchain : list Block) :
  fst (ReplaceChain newBlocks Blockchain) = Ok tt /\
  ((length newBlocks <= length Blockchain)%nat ->
   snd (ReplaceChain newBlocks Blockchain) = Blockchain) /\
  ((length Blockchain < length newBlocks)%nat ->
   snd (ReplaceChain newBlocks Blockchain) = newBlocks).
Proof.
  rewrite ReplaceChain_run. cbn [fst snd]. unfold len.
  split; [reflexivity|]. split; intros H.
  - replace (Z.of_nat (length newBlocks) >? Z.of_nat (length Blockchain))
      with false by (symmetry; rewrite Z.gtb_ltb; apply Z.ltb_ge; lia).
    reflexivity.
  - replace (Z.of_nat (length newBlocks) >? Z.of_nat (length Blockchain))
      with true by (symmetry; apply Z.gtb_lt; lia).
    reflexivity.
Qed.

(** An equally long candidate is dropped, a longer one is installed. *)
Lemma ReplaceChain_longest_witness :
  snd (ReplaceChain [Sample.genesis0] [Sample.genesis0]) = [Sample.genesis0] /\
  snd (ReplaceChain [Sample.genesis0; Sample.block1] [Sample.genesis0]) =
  [Sample.genesis0; Sample.block1].
Proof.
  split.
  - apply (proj1 (proj2 (ReplaceChain_longest
                           [Sample.genesis0] [Sample.genesis0]))).
    simpl. lia.
  - apply (proj2 (proj2 (ReplaceChain_longest
                           [Sample.genesis0; Sample.block1]
                           [Sample.genesis0]))).
    simpl. lia.
Defined.

(** C5 as stated fails: a shorter and an equally long candidate leave the
    chain unchanged, but what [ReplaceChain] returns then is what it returns
    when it replaces the chain; it does not return [false]. *)
Lemma ReplaceChain_returns_nothing :
  let current := [Sample.genesis0] in
  let longer := [Sample.genesis0; Sample.block1] in
  snd (ReplaceChain [] current) = current /\
  snd (ReplaceChain current current) = current /\
  snd (ReplaceChain longer current) = longer /\
  forall read : result unit -> bool,
    read (fst (ReplaceChain [] current)) =
    read (fst (ReplaceChain longer current)).
Proof.
  cbv zeta. rewrite !ReplaceChain_run. repeat split.
Qed.

(** ** Initialization and the chain invariant *)

(** C8. When the genesis goroutine runs, whatever was served before it, the
    chain becomes exactly one block, the genesis block, whose index is 0 and
    whose [PrevHash] is the empty string. *)
Theorem genesis_initial (p : Process) (now : string) :
  reachable p -> genesisPending p = true ->
  chain (step (RunGenesis now) p) = [genesisBlock now] /\
  Index (genesisBlock now) = 0 /\
  PrevHash (genesisBlock now) = ""%string.
Proof.
  intros Hr Hp. destruct (reachable_inv p Hr) as (_ & He & _).
  unfold step. rewrite Hp. cbn [chain]. rewrite (He Hp).
  repeat split.
Qed.

(** The goroutine runs after a POST that found the slice empty. *)
Lemma genesis_initial_witness :
  chain (step (RunGenesis Sample.t0)
              (step (Post (Decoded (mkMessage 100)) Sample.t1) start)) =
  [Sample.genesis0] /\
  Index Sample.genesis0 = 0 /\
  PrevHash Sample.genesis0 = ""%string.
Proof.
  apply (genesis_initial
           (step (Post (Decoded (mkMessage 100)) Sample.t1) start) Sample.t0).
  - apply reachable_step, reachable_start.
  - reflexivity.
Defined.



(** In a reachable chain the index of a block is its position, as an [int]:
    the index of the predecessor plus one is the mathematical successor for
    every chain of at most [2 ^ 63] blocks. *)
Lemma wrap_succ (a : Z) : int_add (wrap a) 1 = wrap (a + 1).
Proof.
  unfold int_add, wrap. f_equal.
  replace ((a + 2 ^ 63) mod 2 ^ 64 - 2 ^ 63 + 1 + 2 ^ 63)
    with ((a + 2 ^ 63) mod 2 ^ 64 + 1) by lia.
  rewrite Zplus_mod_idemp_l. f_equal. lia.
Qed.

Lemma reachable_index (p : Process) (i : nat) (B : Block) :
  reachable p -> nth_error (chain p) i = Some B ->
  Index B = wrap (Z.of_nat i).
Proof.
  intros Hr. destruct (reachable_inv p Hr) as (Hl & Hp & Hg).
  revert B. induction i as [|i IH]; intros B HB.
  - destruct (genesisPending p) eqn:E.
    + rewrite (Hp eq_refl) in HB. discriminate HB.
    + destruct (Hg eq_refl) as (now & rest & Hc). rewrite Hc in HB.
      injection HB as <-. reflexivity.
  - destruct (nth_error (chain p) i) as [P|] eqn:HP.
    + destruct (Hl i P B HP HB) as (Hi & _).
      rewrite Hi, (IH P eq_refl), wrap_succ. f_equal. lia.
    + apply nth_error_None in HP.
      assert (nth_error (chain p) (S i) = None)
        by (apply nth_error_None; lia).
      congruence.
Qed.

Lemma reachable_index_position (p : Process) (i : nat) (B : Block) :
  reachable p -> nth_error (chain p) i = Some B ->
  Z.of_nat i <= max_int -> Index B = Z.of_nat i.
Proof.
  intros Hr HB Hi. rewrite (reachable_index p i B Hr HB).
  apply wrap_in_range. unfold in_range, min_int, max_int in *. lia.
Qed.

(** ** The genesis block *)

(** C10. The genesis block stores the empty string as its [Hash], which is
    not the digest of its fields; the block generated on it has the empty
    [PrevHash], is accepted by [ValidateBlock], and is appended by
    [WriteBlockchain]. *)
Theorem genesis_hash_empty (now now' : string) (p : Z) :
  let g := genesisBlock now in
  let B := fst (GenerateBlock now' g p) in
  Hash g = ""%string /\
  GenerateHash g <> Hash g /\
  PrevHash B = ""%string /\
  ValidateBlock g B = true /\
  snd (WriteBlockchain (Decoded (mkMessage p)) now' [g]) = [g; B].
Proof.
  cbv zeta. split; [reflexivity|]. split; [apply GenerateHash_nonempty|].
  split; [reflexivity|]. split; [apply GenerateBlock_accepted|].
  exact (f_equal snd (WriteBlockchain_run [] (genesisBlock now)
                        (mkMessage p) now')).
Qed.

(** ** Tampering *)

(** A change of the index of an accepted block is detected. *)
Lemma tamper_Index_detected (P B : Block) (i : Z) :
  ValidateBlock P B = true -> i <> Index B ->
  ValidateBlock P (set_Index i B) = false.
Proof.
  intros HV Hi. apply ValidateBlock_spec in HV. destruct HV as (H1 & _).
  apply ValidateBlock_false. left. cbn [Index set_Index]. congruence.
Qed.

(** A change of the [PrevHash] of an accepted block is detected. *)
Lemma tamper_PrevHash_detected (P B : Block) (h : string) :
  ValidateBlock P B = true -> h <> PrevHash B ->
  ValidateBlock P (set_PrevHash h B) = false.
Proof.
  intros HV Hh. apply ValidateBlock_spec in HV. destruct HV as (_ & H2 & _).
  apply ValidateBlock_false. right; left. cbn [PrevHash set_PrevHash].
  congruence.
Qed.

(** A change of the payload is detected exactly when it changes the digest. *)
Lemma tamper_Data_detected_iff (P B : Block) (d : Z) :
  ValidateBlock P B = true ->
  (ValidateBlock P (set_Data d B) = false <->
   GenerateHash (set_Data d B) <> GenerateHash B).
Proof.
  intros HV. apply ValidateBlock_spec in HV. destruct HV as (H1 & H2 & H3).
  rewrite H3. split.
  - intros HF. apply ValidateBlock_false in HF.
    destruct HF as [HF|[HF|HF]]; [contradiction|contradiction|exact HF].
  - intros HN. apply ValidateBlock_false. right; right. exact HN.
Qed.

(** [string(Data)] is the same three bytes for every payload that is not a
    Unicode code point: the negative ones, the surrogate range and everything
    above [0x10FFFF]. *)
Lemma string_of_int_invalid (v : Z) :
  valid_rune v = false -> string_of_int v = string_of_int runeError.
Proof.
  unfold string_of_int. intros ->. reflexivity.
Qed.

(** Between two such payloads the digest does not change, and the altered
    block is accepted. *)
Lemma tamper_Data_undetected (P B : Block) (d : Z) :
  ValidateBlock P B = true ->
  valid_rune (Data B) = false -> valid_rune d = false ->
  ValidateBlock P (set_Data d B) = true.
Proof.
  intros HV HB Hd. apply ValidateBlock_spec in HV.
  destruct HV as (H1 & H2 & H3).
  apply ValidateBlock_spec. cbn [Index PrevHash Hash set_Data].
  split; [exact H1|]. split; [exact H2|]. rewrite <- H3.
  unfold GenerateHash. cbn [Index Timestamp Data PrevHash set_Data].
  rewrite (string_of_int_invalid d Hd), (string_of_int_invalid (Data B) HB).
  reflexivity.
Qed.

(** C4 fails on the code. The block appended to the genesis block for the
    payload 2000000 is accepted; with its payload changed to 3000000 and
    nothing else it is accepted as well, since [GenerateHash] hashes
    [string(Data)], a rune conversion, and both payloads give U+FFFD. *)
Theorem tampered_payload_accepted :
  let P := Sample.genesis0 in
  let B := fst (GenerateBlock Sample.t1 P 2000000) in
  let B' := set_Data 3000000 B in
  ValidateBlock P B = true /\
  Data B' <> Data B /\
  Index B' = Index B /\ Timestamp B' = Timestamp B /\
  Hash B' = Hash B /\ PrevHash B' = PrevHash B /\
  GenerateHash B' = GenerateHash B /\
  ValidateBlock P B' = true.
Proof.
  cbv zeta.
  assert (HV : ValidateBlock Sample.genesis0
                 (fst (GenerateBlock Sample.t1 Sample.genesis0 2000000)) = true)
    by apply GenerateBlock_accepted.
  split; [exact HV|]. split; [discriminate|].
  do 4 (split; [reflexivity|]).
  split; [|apply tamper_Data_undetected; [exact HV|reflexivity|reflexivity]].
  unfold GenerateHash. reflexivity.
Qed.

(** * Further properties of the code *)

(** ** What [ValidateBlock] catches *)

Lemma tamper_Hash_detected (P B : Block) (h : string) :
  ValidateBlock P B = true -> h <> Hash B ->
  ValidateBlock P (set_Hash h B) = false.
Proof.
  intros HV Hh. apply ValidateBlock_spec in HV. destruct HV as (_ & _ & H3).
  apply ValidateBlock_false. right; right. cbn [Hash set_Hash].
  rewrite GenerateHash_set_Hash. congruence.
Qed.

(** X1. On a block that [ValidateBlock] accepts, a change of [Index], of
    [PrevHash] or of the stored [Hash] alone to any other value makes
    [ValidateBlock] reject it. *)
Theorem tamper_linkage_detected (P B : Block) :
  ValidateBlock P B = true ->
  (forall i : Z, i <> Index B -> ValidateBlock P (set_Index i B) = false) /\
  (forall h : string,
      h <> PrevHash B -> ValidateBlock P (set_PrevHash h B) = false) /\
  (forall h : string,
      h <> Hash B -> ValidateBlock P (set_Hash h B) = false).
Proof.
  intros HV. split; [|split].
  - intros i Hi. now apply tamper_Index_detected.
  - intros h Hh. now apply tamper_PrevHash_detected.
  - intros h Hh. now apply tamper_Hash_detected.
Qed.

(** The block after the genesis block with its index, its [PrevHash] or its
    [Hash] changed. *)
Lemma tamper_linkage_detected_witness :
  ValidateBlock Sample.genesis0 (set_Index 2 Sample.block1) = false /\
  ValidateBlock Sample.genesis0 (set_PrevHash "00" Sample.block1) = false /\
  ValidateBlock Sample.genesis0 (set_Hash "" Sample.block1) = false.
Proof.
  pose proof (tamper_linkage_detected Sample.genesis0 Sample.block1
                (GenerateBlock_accepted Sample.t1 Sample.genesis0 100))
    as (Hi & Hp & Hh).
  split; [apply Hi; discriminate|].
  split; [apply Hp; discriminate|apply Hh; discriminate].
Defined.

(** ** The form of the digest *)

Lemma digit_lower_hex (n : Z) : lower_hex (Hex.digit n) = true.
Proof.
  unfold Hex.digit. generalize (Z.to_nat n). intros k.
  do 16 (destruct k as [|k]; [reflexivity|]). reflexivity.
Qed.

Lemma EncodeToString_lower_hex (src : list Z) :
  all_chars lower_hex (Hex.EncodeToString src) = true.
Proof.
  induction src as [|b src IH]; [reflexivity|].
  cbn [Hex.EncodeToString all_chars].
  rewrite !digit_lower_hex, IH. reflexivity.
Qed.

(** X2. Whatever the block, [GenerateHash] returns 64 characters, each a
    digit or a lower-case letter from a to f. *)
Theorem GenerateHash_format (b : Block) :
  String.length (GenerateHash b) = 64%nat /\
  all_chars lower_hex (GenerateHash b) = true.
Proof.
  split; [apply GenerateHash_length|].
  unfold GenerateHash. apply EncodeToString_lower_hex.
Qed.

(** ** Replays *)

Lemma int_add_1_neq (a : Z) : int_add a 1 <> a.
Proof.
  unfold int_add, wrap. intros H.
  pose proof (Z.mod_pos_bound (a + 1 + 2 ^ 63) (2 ^ 64) ltac:(lia)) as B.
  destruct (Z.eq_dec ((a + 1 + 2 ^ 63) mod 2 ^ 64) 0) as [E|E].
  - rewrite E in H. subst a. cbv in E. discriminate E.
  - assert (Hs : (a + 1 + 2 ^ 63 - 1) mod 2 ^ 64 =
                 (a + 1 + 2 ^ 63) mod 2 ^ 64 - 1).
    { rewrite <- (Z.mod_small ((a + 1 + 2 ^ 63) mod 2 ^ 64 - 1) (2 ^ 64))
        by lia.
      rewrite Zminus_mod_idemp_l. reflexivity. }
    replace (a + 1 + 2 ^ 63 - 1) with (a + 2 ^ 63) in Hs by lia.
    assert (Ha : 0 <= a + 2 ^ 63 < 2 ^ 64) by lia.
    rewrite Z.mod_small in Hs by exact Ha. lia.
Qed.

Lemma ValidateBlock_self (b : Block) : ValidateBlock b b = false.
Proof.
  apply ValidateBlock_false. left. intros H.
  exact (int_add_1_neq (Index b) (eq_sym H)).
Qed.

(** X3. No block is a valid successor of itself, so that the append path
    does not append a block a second time: on a chain that ends with [b] the
    candidate [b] is rejected, and running the path twice with one candidate
    leaves the chain that running it once leaves. *)
Theorem tryAppend_replay (front : list Block) (tail b : Block) :
  ValidateBlock b b = false /\
  tryAppend b (front ++ [b]) = (Ok tt, front ++ [b]) /\
  snd (tryAppend b (snd (tryAppend b (front ++ [tail])))) =
  snd (tryAppend b (front ++ [tail])).
Proof.
  split; [apply ValidateBlock_self|]. split.
  - rewrite tryAppend_run, ValidateBlock_self. reflexivity.
  - rewrite (tryAppend_run front tail b). cbn [snd].
    destruct (ValidateBlock tail b) eqn:E.
    + unfold append. rewrite tryAppend_run, ValidateBlock_self. reflexivity.
    + rewrite tryAppend_run, E. reflexivity.
Qed.

(** ** The whole effect of [WriteBlockchain] *)




(** ** The chain as an append-only log *)

Lemma step_chain (e : Event) (p : Process) :
  exists suffix : list Block,
    chain (step e p) = chain p ++ suffix /\ (length suffix <= 1)%nat.
Proof.
  destruct e as [now|r now]; unfold step.
  - destruct (genesisPending p).
    + exists [genesisBlock now]. split; [reflexivity|cbn [length]; lia].
    + exists []. rewrite app_nil_r. split; [reflexivity|cbn [length]; lia].
  - cbn [chain]. destruct r as [err|m].
    + exists []. rewrite app_nil_r. split; [reflexivity|cbn [length]; lia].
    + destruct (slice_cases (chain p)) as [E|(front & tail & E)]; rewrite E.
      * exists []. split; [reflexivity|cbn [length]; lia].
      * rewrite WriteBlockchain_run. cbn [snd]. unfold append.
        eexists [_]. split; [reflexivity|cbn [length]; lia].
Qed.

Lemma serve_chain (events : list Event) (p : Process) :
  exists suffix : list Block,
    chain (serve events p) = chain p ++ suffix /\
    (length suffix <= length events)%nat.
Proof.
  revert p. induction events as [|e events IH]; intros p.
  - exists []. rewrite app_nil_r. split; [reflexivity|cbn [length]; lia].
  - change (serve (e :: events) p) with (serve events (step e p)).
    destruct (IH (step e p)) as (s2 & E2 & L2).
    destruct (step_chain e p) as (s1 & E1 & L1).
    exists (s1 ++ s2). rewrite E2, E1, app_assoc.
    split; [reflexivity|]. rewrite length_app. cbn [length]. lia.
Qed.

Lemma reachable_serve (events : list Event) (p : Process) :
  reachable p -> reachable (serve events p).
Proof.
  revert p. induction events as [|e events IH]; intros p Hr; [exact Hr|].
  apply (IH (step e p)). now apply reachable_step.
Qed.




(** ** Requests before and after the genesis goroutine *)

Lemma initialised_chain (p : Process) :
  reachable p -> genesisPending p = false ->
  exists front tail, chain p = front ++ [tail].
Proof.
  intros Hr Hd. destruct (reachable_inv p Hr) as (_ & _ & Hg).
  destruct (Hg Hd) as (now & rest & Hc).
  destruct (slice_cases (chain p)) as [E|E]; [congruence|exact E].
Qed.

(** X7. Once the genesis goroutine has run, no POST panics and none is
    answered with a 500: the answer is 201 when the body decodes and 400
    when it does not. *)
Theorem post_after_genesis_answered (p : Process) (r : Request)
        (now : string) :
  reachable p -> genesisPending p = false ->
  exists resp : Response,
    fst (WriteBlockchain r now (chain p)) = Ok resp /\
    StatusCode resp =
    match r with
    | Decoded _ => StatusCreated
    | Malformed _ => StatusBadRequest
    end.
Proof.
  intros Hr Hd. destruct r as [err|m].
  - eexists. split; reflexivity.
  - destruct (initialised_chain p Hr Hd) as (front & tail & E).
    rewrite E, WriteBlockchain_run. eexists. split; reflexivity.
Qed.

(** A POST after two earlier ones. *)
Lemma post_after_genesis_answered_witness :
  exists resp : Response,
    fst (WriteBlockchain (Decoded (mkMessage 5)) Sample.t2
           (chain Sample.process2)) = Ok resp /\
    StatusCode resp = StatusCreated.
Proof.
  apply (post_after_genesis_answered Sample.process2
           (Decoded (mkMessage 5)) Sample.t2).
  - apply reachable_serve, reachable_start.
  - reflexivity.
Defined.

(** X8. Once the genesis goroutine has run, the chain is not empty and its
    first block is the genesis block, and stays that block whatever is
    served afterwards. *)
Theorem genesis_stays_first (p : Process) (events : list Event) :
  reachable p -> genesisPending p = false ->
  exists (now : string) (rest rest' : list Block),
    chain p = genesisBlock now :: rest /\
    chain (serve events p) = genesisBlock now :: rest'.
Proof.
  intros Hr Hd. destruct (reachable_inv p Hr) as (_ & _ & Hg).
  destruct (Hg Hd) as (now & rest & Hc).
  destruct (serve_chain events p) as (suffix & Es & _).
  exists now, rest, (rest ++ suffix). split; [exact Hc|].
  rewrite Es, Hc. reflexivity.
Qed.

(** The genesis block before and after two POSTs. *)
Lemma genesis_stays_first_witness :
  exists (now : string) (rest rest' : list Block),
    chain Sample.process0 = genesisBlock now :: rest /\
    chain (serve [Post (Decoded (mkMessage 100)) Sample.t1;
                  Post (Decoded (mkMessage 7)) Sample.t2] Sample.process0) =
    genesisBlock now :: rest'.
Proof.
  apply (genesis_stays_first Sample.process0).
  - apply reachable_step, reachable_start.
  - reflexivity.
Defined.

(** X9. As long as the genesis goroutine has not run, a POST whose body
    decodes panics on the empty slice, and the state is as before: the
    request is lost and the chain is still empty. *)
Theorem post_before_genesis_panics (p : Process) (m : Message)
        (now : string) :
  reachable p -> genesisPending p = true ->
  WriteBlockchain (Decoded m) now (chain p) =
  (Panic "index out of range", []) /\
  step (Post (Decoded m) now) p = p.
Proof.
  intros Hr Hp. destruct (reachable_inv p Hr) as (_ & He & _).
  pose proof (He Hp) as E. destruct p as [c pending].
  cbn [chain genesisPending] in *. subst c pending.
  split; reflexivity.
Qed.

(** A second POST before the goroutine, after a first that was lost. *)
Lemma post_before_genesis_panics_witness :
  WriteBlockchain (Decoded (mkMessage 7)) Sample.t2 (chain Sample.early) =
  (Panic "index out of range", []) /\
  step (Post (Decoded (mkMessage 7)) Sample.t2) Sample.early = Sample.early.
Proof.
  apply (post_before_genesis_panics Sample.early).
  - apply reachable_step, reachable_start.
  - reflexivity.
Defined.



(** ** What the stored hashes commit to *)



(** ** [GetBlockchain] *)

Lemma GetBlockchain_run (c : list Block) :
  GetBlockchain c =
  (Ok (mkListing StatusOK (ListingJSON (fst (MarshalIndent_slice c)))), c).
Proof. destruct c; reflexivity. Qed.

(** X12. In every reachable state [GetBlockchain] answers 200 and leaves the
    chain as it is. Before the genesis goroutine has run the body is [null];
    afterwards it is an array with one object for each block, in the order
    of the chain. *)
Theorem get_lists_chain (p : Process) :
  reachable p ->
  GetBlockchain (chain p) =
  (Ok (mkListing StatusOK
         (ListingJSON (if genesisPending p then JNull
                       else JArray (map json_of_Block (chain p))))),
   chain p).
Proof.
  intros Hr. destruct (reachable_inv p Hr) as (_ & Hp & Hg).
  rewrite GetBlockchain_run. destruct (genesisPending p).
  - rewrite (Hp eq_refl). reflexivity.
  - destruct (Hg eq_refl) as (now & rest & ->). reflexivity.
Qed.

(** After two POSTs the listing has three objects. *)
Lemma get_lists_chain_witness :
  GetBlockchain (chain Sample.process2) =
  (Ok (mkListing StatusOK
         (ListingJSON
            (if genesisPending Sample.process2 then JNull
             else JArray (map json_of_Block (chain Sample.process2))))),
   chain Sample.process2).
Proof.
  apply (get_lists_chain Sample.process2).
  apply reachable_serve, reachable_start.
Defined.

(** X13. A GET that follows a POST on a chain with a last block lists the
    blocks the chain had, followed by the very block the POST was answered
    with; the GET itself changes nothing, so that a second GET gives the
    same answer. *)
Theorem post_then_get (front : list Block) (tail : Block) (m : Message)
        (now : string) :
  let c := front ++ [tail] in
  let posted := WriteBlockchain (Decoded m) now c in
  exists B : Block,
    fst posted =
    Ok (mkResponse StatusCreated (BodyJSON (json_of_Block B))) /\
    GetBlockchain (snd posted) =
    (Ok (mkListing StatusOK
           (ListingJSON (JArray (map json_of_Block c ++ [json_of_Block B])))),
     snd posted) /\
    GetBlockchain (snd (GetBlockchain (snd posted))) =
    GetBlockchain (snd posted).
Proof.
  cbv zeta. rewrite WriteBlockchain_run. cbn [fst snd].
  exists (fst (GenerateBlock now tail (Message_Data m))).
  split; [reflexivity|].
  assert (E : fst (MarshalIndent_slice
                (append (front ++ [tail])
                   (fst (GenerateBlock now tail (Message_Data m))))) =
              JArray (map json_of_Block (front ++ [tail]) ++
                      [json_of_Block
                         (fst (GenerateBlock now tail (Message_Data m)))])).
  { unfold append.
    change [json_of_Block (fst (GenerateBlock now tail (Message_Data m)))]
      with (map json_of_Block
              [fst (GenerateBlock now tail (Message_Data m))]).
    rewrite <- map_app.
    destruct ((front ++ [tail]) ++
              [fst (GenerateBlock now tail (Message_Data m))]) eqn:El;
      [|reflexivity].
    apply app_eq_nil in El. destruct El as [_ El]. discriminate El. }
  rewrite !GetBlockchain_run. cbn [snd]. rewrite E. split; reflexivity.
Qed.

(** ** [ReplaceChain] on its own *)

(** X14. [ReplaceChain] never shortens the chain: the length after is the
    larger of the two lengths. Offering the same candidate again changes
    nothing. *)
Theorem ReplaceChain_never_shrinks (newBlocks Blockchain : list Block) :
  length (snd (ReplaceChain newBlocks Blockchain)) =
  Nat.max (length newBlocks) (length Blockchain) /\
  snd (ReplaceChain newBlocks (snd (ReplaceChain newBlocks Blockchain))) =
  snd (ReplaceChain newBlocks Blockchain).
Proof.
  rewrite (ReplaceChain_run newBlocks Blockchain). cbn [snd].
  destruct (len newBlocks >? len Blockchain) eqn:E.
  - pose proof E as E'. unfold len in E'. apply Z.gtb_lt in E'.
    split; [lia|]. rewrite ReplaceChain_run. cbn [snd].
    now destruct (len newBlocks >? len newBlocks).
  - pose proof E as E'. unfold len in E'.
    rewrite Z.gtb_ltb in E'. apply Z.ltb_ge in E'. split; [lia|].
    rewrite ReplaceChain_run, E. reflexivity.
Qed.

Lemma chain_linked_last (front : list Block) (P B : Block) :
  chain_linked (front ++ [P; B]) -> linked P B.
Proof.
  intros H. apply (H (length front) P B).
  - rewrite nth_error_app2 by lia. rewrite Nat.sub_diag. reflexivity.
  - rewrite nth_error_app2 by lia.
    replace (S (length front) - length front)%nat with 1%nat by lia.
    reflexivity.
Qed.

(** X15. [ReplaceChain] looks at the lengths only. For every chain with a
    last block there is a longer candidate, the chain with its last block
    repeated, that it installs although the chain it installs is not linked:
    the links of the chain are kept by the validation in [WriteBlockchain],
    not by [ReplaceChain]. *)
Theorem ReplaceChain_installs_unlinked (front : list Block) (tail : Block) :
  snd (ReplaceChain (front ++ [tail; tail]) (front ++ [tail])) =
  front ++ [tail; tail] /\
  ~ chain_linked (front ++ [tail; tail]).
Proof.
  split.
  - rewrite ReplaceChain_run. cbn [snd]. unfold len.
    rewrite !length_app. cbn [length].
    replace (Z.of_nat (length front + 2) >? Z.of_nat (length front + 1))
      with true by (symmetry; apply Z.gtb_lt; lia).
    reflexivity.
  - intros H. apply chain_linked_last, linked_ValidateBlock in H.
    rewrite ValidateBlock_self in H. discriminate H.
Qed.

(** ** Payloads that are not code points *)

(** X16. [GenerateHash] does not tell apart two payloads that are not
    Unicode code points (negative, in the surrogate range or above
    [0x10FFFF]): the blocks generated for them on one predecessor at one
    time have the same [Hash], so that the block generated for one, with its
    payload replaced by the other, is the block generated for the other and
    is accepted. *)
Theorem invalid_payloads_share_hash (now : string) (P : Block) (d d' : Z) :
  valid_rune d = false -> valid_rune d' = false ->
  Hash (fst (GenerateBlock now P d)) = Hash (fst (GenerateBlock now P d')) /\
  set_Data d' (fst (GenerateBlock now P d)) = fst (GenerateBlock now P d') /\
  ValidateBlock P (set_Data d' (fst (GenerateBlock now P d))) = true.
Proof.
  intros Hd Hd'.
  assert (EH : Hash (fst (GenerateBlock now P d)) =
               Hash (fst (GenerateBlock now P d'))).
  { unfold GenerateBlock. fields. unfold GenerateHash. fields.
    rewrite (string_of_int_invalid d Hd), (string_of_int_invalid d' Hd').
    reflexivity. }
  assert (EB : set_Data d' (fst (GenerateBlock now P d)) =
               fst (GenerateBlock now P d')).
  { unfold set_Data. rewrite EH. reflexivity. }
  split; [exact EH|]. split; [exact EB|].
  rewrite EB. apply GenerateBlock_accepted.
Qed.

(** A negative payload and one above the last code point. *)
Lemma invalid_payloads_share_hash_witness :
  Hash (fst (GenerateBlock Sample.t1 Sample.genesis0 (-5))) =
  Hash (fst (GenerateBlock Sample.t1 Sample.genesis0 1114112)) /\
  set_Data 1114112 (fst (GenerateBlock Sample.t1 Sample.genesis0 (-5))) =
  fst (GenerateBlock Sample.t1 Sample.genesis0 1114112) /\
  ValidateBlock Sample.genesis0
    (set_Data 1114112
       (fst (GenerateBlock Sample.t1 Sample.genesis0 (-5)))) = true.
Proof.
  apply (invalid_payloads_share_hash Sample.t1 Sample.genesis0
           (-5) 1114112); reflexivity.
Defined.
